(** * Message router of the log.io server (src/server/src/logger.ts)

    Shallow embedding of the TCP wire parser [broadcastMessage], the
    dispatch table [messageHandlers] and the three handlers, together with
    the input registry they call (its module [./inputs] is not among the
    sources and is modelled from the specification).

    Text: [data.toString()] is modelled as the identity on a string of code
    units below 256 (ASCII input decodes to itself).  JavaScript [undefined]
    (a missing array element after destructuring) is [JUndefined]. *)

From Stdlib Require Import String Ascii List Bool Arith Lia.
Import ListNotations.
Open Scope string_scope.
Open Scope list_scope.

(** ** JavaScript strings *)

Definition nul : ascii := Ascii.ascii_of_nat 0.
Definition bar : ascii := "|"%char.

(** [s.split(sep)] for a one-character separator. *)
Fixpoint split_char (sep : ascii) (s : string) : list string :=
  match s with
  | EmptyString => [EmptyString]
  | String c rest =>
      if Ascii.eqb c sep then EmptyString :: split_char sep rest
      else match split_char sep rest with
           | h :: t => String c h :: t
           | [] => [String c EmptyString]
           end
  end.

(** [arr.join(sep)] on an array of strings. *)
Definition join (sep : string) (l : list string) : string := String.concat sep l.

(** [arr.slice(0, -1)]: every element but the last. *)
Definition slice_0_m1 {A} (l : list A) : list A := removelast l.

(** [arr.slice(n)]. *)
Definition slice_from {A} (n : nat) (l : list A) : list A := skipn n l.

(** The code units below 256 removed by [String.prototype.trim]:
    TAB, LF, VT, FF, CR, SPACE and NO-BREAK SPACE. *)
Definition is_js_ws (c : ascii) : bool :=
  let n := Ascii.nat_of_ascii c in
  (Nat.leb 9 n && Nat.leb n 13) || Nat.eqb n 32 || Nat.eqb n 160.

Fixpoint trim_start (s : string) : string :=
  match s with
  | EmptyString => EmptyString
  | String c rest => if is_js_ws c then trim_start rest else s
  end.

Fixpoint string_rev (s : string) : string :=
  match s with
  | EmptyString => EmptyString
  | String c rest => string_rev rest ++ String c EmptyString
  end.

(** [s.trim()]. *)
Definition js_trim (s : string) : string :=
  string_rev (trim_start (string_rev (trim_start s))).

(** [!!s]: a string is truthy when it is not empty. *)
Definition truthy (s : string) : bool :=
  match s with EmptyString => false | _ => true end.

(** A JavaScript value read from an array: a string or [undefined]. *)
Inductive jsval :=
| JUndefined
| JString (s : string).

Definition jsval_eqb (a b : jsval) : bool :=
  match a, b with
  | JUndefined, JUndefined => true
  | JString x, JString y => String.eqb x y
  | _, _ => false
  end.

(** [arr[i]] *)
Definition field (i : nat) (l : list string) : jsval :=
  match nth_error l i with Some s => JString s | None => JUndefined end.

(** ** Server configuration, payloads and observable effects *)

Record ServerConfig := { debug : bool }.

(** The objects handed to [emit]. *)
Inductive Payload :=
| PMessage (inputName : string) (msg : string) (stream source : jsval)
| PPing (inputName : string) (stream source : jsval)
| PInput (stream source : jsval) (inputName : string).

(** One observable step: a registry call, a socket.io emission (to one room,
    or to every connected browser), a log line, or a rejected promise left
    unhandled by the [forEach] callback. *)
Inductive Effect :=
| ERegAdd (stream source : jsval) (inputName : string)
| ERegRemove (stream source : jsval) (inputName : string)
| EEmitRoom (room : string) (event : jsval) (p : Payload)
| EEmitAll (event : jsval) (p : Payload)
| ELogError (line : string)
| ELogDebug (line : string)
| ERejected.

(** ** Input registry *)

Record Input := mkInput { in_stream : jsval; in_source : jsval; in_inputName : string }.

Definition same_key (s src : jsval) (i : Input) : bool :=
  jsval_eqb (in_stream i) s && jsval_eqb (in_source i) src.

Section Registry.

(** The deterministic derivation of a channel id from a (stream, source)
    pair; the specification fixes no particular function. *)
Variable derive : jsval -> jsval -> string.

(** Modelled from the spec: [InputRegistry.add] of ./inputs (not in the
    sources).  Keyed by the (stream, source) pair; an unseen pair is stored
    in registration order with its derived channel id, a known pair returns
    its stored channel id unchanged. *)
Definition reg_add (r : list Input) (s src : jsval) : string * list Input :=
  match find (same_key s src) r with
  | Some i => (in_inputName i, r)
  | None => let n := derive s src in (n, r ++ [mkInput s src n])
  end.

(** Modelled from the spec: [InputRegistry.remove] of ./inputs (not in the
    sources).  Deletes the Input of the pair and returns its former channel
    id; an unknown pair leaves the registry as it is and returns the
    derived channel id. *)
Definition reg_remove (r : list Input) (s src : jsval) : string * list Input :=
  match find (same_key s src) r with
  | Some i => (in_inputName i, filter (fun j => negb (same_key s src j)) r)
  | None => (derive s src, r)
  end.

(** Modelled from the spec: [InputRegistry.getInputs] / [list()]. *)
Definition reg_list (r : list Input) : list Input := r.

End Registry.

(** ** The state the router threads: the registry and what has been observed *)

Record World := mkWorld { registry : list Input; trace : list Effect }.

(** A small state monad over [World]. *)
Definition M (A : Type) : Type := World -> A * World.

Definition ret {A} (a : A) : M A := fun w => (a, w).
Definition bind {A B} (m : M A) (f : A -> M B) : M B :=
  fun w => let (a, w') := m w in f a w'.

Notation "x <- m ;; k" := (bind m (fun x => k))
  (at level 61, m at next level, right associativity).
Notation "m ;;; k" := (bind m (fun _ => k))
  (at level 61, right associativity).

Definition exec {A} (m : M A) (w : World) : World := snd (m w).

Definition observe (e : Effect) : M unit :=
  fun w => (tt, mkWorld (registry w) (trace w ++ [e])).

Definition emit_room (room : string) (ev : jsval) (p : Payload) : M unit :=
  observe (EEmitRoom room ev p).
Definition emit_all (ev : jsval) (p : Payload) : M unit :=
  observe (EEmitAll ev p).
Definition log_error (line : string) : M unit := observe (ELogError line).
Definition log_debug (line : string) : M unit := observe (ELogDebug line).

(** [array.forEach(cb)].  Every callback of [broadcastMessage] runs its
    handler to completion before its first [await] suspends it (the handlers
    never await), so all effects happen in array order. *)
Fixpoint forEach {A} (f : A -> M unit) (l : list A) : M unit :=
  match l with
  | [] => ret tt
  | x :: l' => f x ;;; forEach f l'
  end.

Section Router.

Variable derive : jsval -> jsval -> string.

(** [inputs.add(stream, source)] *)
Definition inputs_add (s src : jsval) : M string :=
  fun w => let (n, r') := reg_add derive (registry w) s src in
           (n, mkWorld r' (trace w ++ [ERegAdd s src n])).

(** [inputs.remove(stream, source)] *)
Definition inputs_remove (s src : jsval) : M string :=
  fun w => let (n, r') := reg_remove derive (registry w) s src in
           (n, mkWorld r' (trace w ++ [ERegRemove s src n])).

(** [handleNewMessage] (logger.ts, lines 44-67). *)
Definition handleNewMessage (config : ServerConfig) (msgParts : list string) : M unit :=
  let mtype := field 0 msgParts in
  let stream := field 1 msgParts in
  let source := field 2 msgParts in
  let msg := join "|" (slice_from 3 msgParts) in
  inputName <- inputs_add stream source ;;
  emit_room inputName mtype (PMessage inputName msg stream source) ;;;
  emit_all (JString "+ping") (PPing inputName stream source) ;;;
  (if debug config then log_debug (join "|" msgParts) else ret tt).

(** [handleRegisterInput] (logger.ts, lines 72-81). *)
Definition handleRegisterInput (config : ServerConfig) (msgParts : list string) : M unit :=
  let mtype := field 0 msgParts in
  let stream := field 1 msgParts in
  let source := field 2 msgParts in
  inputName <- inputs_add stream source ;;
  emit_all mtype (PInput stream source inputName).

(** [handleDeregisterInput] (logger.ts, lines 86-95). *)
Definition handleDeregisterInput (config : ServerConfig) (msgParts : list string) : M unit :=
  let mtype := field 0 msgParts in
  let stream := field 1 msgParts in
  let source := field 2 msgParts in
  inputName <- inputs_remove stream source ;;
  emit_all mtype (PInput stream source inputName).

(** What [messageHandlers[key]] reads from the object literal
    (logger.ts, lines 98-102): one of its own three properties, or a
    property inherited from [Object.prototype]. *)
Inductive Handler :=
| HNewMessage
| HRegisterInput
| HDeregisterInput
| HInherited (name : string).

Definition object_prototype_keys : list string :=
  ["constructor"; "__defineGetter__"; "__defineSetter__"; "hasOwnProperty";
   "__lookupGetter__"; "__lookupSetter__"; "isPrototypeOf";
   "propertyIsEnumerable"; "toString"; "valueOf"; "__proto__";
   "toLocaleString"].

Definition messageHandlers (key : string) : option Handler :=
  if String.eqb key "+msg" then Some HNewMessage
  else if String.eqb key "+input" then Some HRegisterInput
  else if String.eqb key "-input" then Some HDeregisterInput
  else if existsb (String.eqb key) object_prototype_keys then Some (HInherited key)
  else None.

(** Calling an inherited member as [messageHandler(config, inputs, io,
    msgParts)]: [Object] and [Object.prototype.toString] return without
    effect; every other member throws a TypeError ([this] is undefined, or
    [Object.prototype] is not callable), which rejects the callback's
    promise. *)
Definition call_inherited (name : string) : M unit :=
  if String.eqb name "constructor" || String.eqb name "toString" then ret tt
  else observe ERejected.

Definition run_handler (h : Handler) (config : ServerConfig) (msgParts : list string) : M unit :=
  match h with
  | HNewMessage => handleNewMessage config msgParts
  | HRegisterInput => handleRegisterInput config msgParts
  | HDeregisterInput => handleDeregisterInput config msgParts
  | HInherited name => call_inherited name
  end.

(** [msgParts[0]]: [split] never returns an empty array. *)
Definition head_part (msgParts : list string) : string := hd EmptyString msgParts.

(** The [forEach] callback of [broadcastMessage] (logger.ts, lines 120-128). *)
Definition on_msg (config : ServerConfig) (msg : string) : M unit :=
  let msgParts := split_char bar msg in
  match messageHandlers (head_part msgParts) with
  | Some h => run_handler h config msgParts
  | None => log_error ("Unknown message type: " ++ head_part msgParts)
  end.

(** The segments [broadcastMessage] dispatches (logger.ts, lines 116-119). *)
Definition segments (data : string) : list string :=
  filter (fun msg => truthy (js_trim msg)) (slice_0_m1 (split_char nul data)).

(** [broadcastMessage] (logger.ts, lines 107-129). *)
Definition broadcastMessage (config : ServerConfig) (data : string) : M unit :=
  forEach (on_msg config) (segments data).

End Router.

(** ** Observers used in the statements *)

(** Whether a browser subscribed to the rooms [subs] receives an emission. *)
Definition delivered (subs : list string) (e : Effect) : bool :=
  match e with
  | EEmitRoom room _ _ => existsb (String.eqb room) subs
  | EEmitAll _ _ => true
  | _ => false
  end.

Definition received (subs : list string) (es : list Effect) : list Effect :=
  filter (delivered subs) es.

Definition event_name (e : Effect) : option jsval :=
  match e with
  | EEmitRoom _ ev _ | EEmitAll ev _ => Some ev
  | _ => None
  end.

Definition is_event (name : string) (e : Effect) : bool :=
  match event_name e with
  | Some (JString n) => String.eqb n name
  | _ => false
  end.

Definition is_reg_effect (e : Effect) : bool :=
  match e with ERegAdd _ _ _ | ERegRemove _ _ _ => true | _ => false end.

Definition is_rejected (e : Effect) : bool :=
  match e with ERejected => true | _ => false end.

Definition is_emit (e : Effect) : bool :=
  match e with EEmitRoom _ _ _ | EEmitAll _ _ => true | _ => false end.

(** The payloads of the message events in a trace. *)
Definition dispatched_msgs (es : list Effect) : list string :=
  flat_map (fun e => match e with
                     | EEmitRoom _ _ (PMessage _ m _ _) => [m]
                     | _ => []
                     end) es.

Definition payload_inputName (p : Payload) : string :=
  match p with PMessage n _ _ _ | PPing n _ _ | PInput _ _ n => n end.

(** The channel id a registry call returned, or an emission carries. *)
Definition effect_inputName (e : Effect) : option string :=
  match e with
  | ERegAdd _ _ n | ERegRemove _ _ n => Some n
  | EEmitRoom _ _ p | EEmitAll _ p => Some (payload_inputName p)
  | _ => None
  end.

(** Number of Inputs of the registry stored under a (stream, source) pair. *)
Definition count_key (r : list Input) (s src : jsval) : nat :=
  length (filter (same_key s src) r).

Definition keys_unique (r : list Input) : Prop :=
  forall s src, count_key r s src <= 1.

Definition has_key (r : list Input) (s src : jsval) : Prop :=
  exists i, In i r /\ in_stream i = s /\ in_source i = src.

Definition no_bar (s : string) : bool :=
  forallb (fun c => negb (Ascii.eqb c bar)) (list_ascii_of_string s).

(** The frames of a chunk as the specification describes them, read left
    to right: the text before each terminator is a message, kept unless it
    is empty or only whitespace; the text after the last terminator is the
    trailing fragment and is dropped. *)
Definition blank (s : string) : bool := forallb is_js_ws (list_ascii_of_string s).

Fixpoint spec_frames (pending : string) (s : string) : list string :=
  match s with
  | EmptyString => []
  | String c rest =>
      if Ascii.eqb c nul
      then (if blank pending then [] else [pending]) ++ spec_frames EmptyString rest
      else spec_frames (pending ++ String c EmptyString) rest
  end.

(** Prefixes the first element of a list (used to generalise [split]). *)
Definition prepend_head (p : string) (l : list string) : list string :=
  match l with [] => [] | h :: t => (p ++ h)%string :: t end.

(** A concrete channel-id derivation, used to evaluate examples. *)
Definition js_string_of (v : jsval) : string :=
  match v with JUndefined => "undefined" | JString s => s end.

Definition demo_derive (s src : jsval) : string := js_string_of s ++ ":" ++ js_string_of src.

Definition terminated (s : string) : string := s ++ String nul EmptyString.

Definition empty_world : World := mkWorld [] [].

Definition quiet : ServerConfig := {| debug := false |}.

(** ** The rest of [main] (logger.ts, lines 134-206) *)

Section Main.

Variable derive : jsval -> jsval -> string.

(** The syslog listener's ['message'] handler (lines 187-189): the record's
    text is wrapped into a [+msg] frame of the pseudo input
    (syslog, localhost), terminated by NUL, and fed to [broadcastMessage]. *)
Definition on_syslog_message (config : ServerConfig) (message : string) : M unit :=
  broadcastMessage derive config ("+msg|syslog|localhost|" ++ message ++ String nul EmptyString)%string.

(** The registration of the syslog input once the TCP server listens
    (line 196; the info line logged just before it, line 193, is not one of
    the router's effects). *)
Definition register_syslog_input (config : ServerConfig) : M unit :=
  broadcastMessage derive config ("+input|syslog|localhost" ++ String nul EmptyString)%string.

(** The ['data'] events of one TCP connection (lines 163-167): each chunk is
    handed to [broadcastMessage] in turn.  A [forEach] callback that throws
    leaves a rejected promise nobody handles; Node (15 and later) ends the
    process once the event's microtasks have run, so no later chunk is
    handled. *)
Fixpoint on_data_chunks (config : ServerConfig) (chunks : list string) (w : World) : World :=
  match chunks with
  | [] => w
  | c :: cs =>
      let w' := exec (broadcastMessage derive config c) w in
      if existsb is_rejected (trace w') then w' else on_data_chunks config cs w'
  end.

End Main.

(** A browser's socket.io socket and the rooms it is in; socket.io keeps the
    rooms of a socket as a set and first puts it in the room of its own id. *)
Record Socket := mkSocket { socket_id : string; socket_rooms : list string }.

Definition new_socket (id : string) : Socket := mkSocket id [id].

(** [socket.join(room)] *)
Definition socket_join (room : string) (s : Socket) : Socket :=
  if existsb (String.eqb room) (socket_rooms s) then s
  else mkSocket (socket_id s) (socket_rooms s ++ [room]).

(** [socket.leave(room)] *)
Definition socket_leave (room : string) (s : Socket) : Socket :=
  mkSocket (socket_id s) (filter (fun r => negb (String.eqb room r)) (socket_rooms s)).

(** The two events a browser sends (lines 179-184). *)
Inductive BrowserEvent :=
| Activate (inputName : string)
| Deactivate (inputName : string).

Definition on_browser_event (ev : BrowserEvent) (s : Socket) : Socket :=
  match ev with
  | Activate n => socket_join n s
  | Deactivate n => socket_leave n s
  end.

(** What a newly connected browser is sent first (lines 175-177): one
    ['+input'] event per Input of [inputs.getInputs()], in that order. *)
Definition on_connection (r : list Input) : list (jsval * Input) :=
  map (fun i => (JString "+input", i)) (reg_list r).

Definition no_nul (s : string) : bool :=
  forallb (fun c => negb (Ascii.eqb c nul)) (list_ascii_of_string s).

Definition is_debug_line (e : Effect) : bool :=
  match e with ELogDebug _ => true | _ => false end.

(** How many emissions a segment leads to, by the handler its tag selects. *)
Definition emit_weight (msg : string) : nat :=
  match messageHandlers (head_part (split_char bar msg)) with
  | Some HNewMessage => 2
  | Some HRegisterInput | Some HDeregisterInput => 1
  | _ => 0
  end.

(** ** Lemmas *)

Lemma jsval_eqb_eq (a b : jsval) : jsval_eqb a b = true <-> a = b.
Proof.
  destruct a, b; simpl; split; intro H; try discriminate; auto.
  - apply String.eqb_eq in H; now subst.
  - inversion H; apply String.eqb_refl.
Qed.

Lemma same_key_true (s src : jsval) (i : Input) :
  same_key s src i = true <-> in_stream i = s /\ in_source i = src.
Proof.
  unfold same_key; rewrite andb_true_iff, !jsval_eqb_eq; tauto.
Qed.

Lemma same_key_mk (s src : jsval) (n : string) : same_key s src (mkInput s src n) = true.
Proof. apply same_key_true; auto. Qed.

Lemma split_char_cons (sep : ascii) (s : string) :
  exists h t, split_char sep s = h :: t.
Proof.
  destruct s as [|c rest]; simpl; [eauto|].
  destruct (Ascii.eqb c sep); [eauto|].
  destruct (split_char sep rest); eauto.
Qed.

Lemma split_char_not_sep (sep c : ascii) (rest : string) :
  Ascii.eqb c sep = false ->
  exists h t, split_char sep rest = h :: t /\
              split_char sep (String c rest) = String c h :: t.
Proof.
  intro Hc; simpl; rewrite Hc.
  destruct (split_char_cons sep rest) as (h & t & E); rewrite E; eauto.
Qed.

Lemma concat_cons_char (sep : string) (c : ascii) (h : string) (t : list string) :
  String.concat sep (String c h :: t) = String c (String.concat sep (h :: t)).
Proof. destruct t; reflexivity. Qed.

Lemma join_split (p : string) : join "|" (split_char bar p) = p.
Proof.
  unfold join; induction p as [|c rest IH]; [reflexivity|].
  destruct (Ascii.eqb c bar) eqn:Hc.
  - apply Ascii.eqb_eq in Hc; subst c; cbn [split_char].
    rewrite Ascii.eqb_refl.
    destruct (split_char_cons bar rest) as (h & t & E).
    rewrite E in *; change (String bar (String.concat "|" (h :: t)) = String bar rest).
    now rewrite IH.
  - destruct (split_char_not_sep bar c rest Hc) as (h & t & E1 & E2).
    rewrite E2, concat_cons_char, <- E1, IH; reflexivity.
Qed.

Lemma split_char_app (a b : string) :
  no_bar a = true -> split_char bar (a ++ String bar b) = a :: split_char bar b.
Proof.
  induction a as [|c rest IH]; intro Ha; simpl.
  - reflexivity.
  - unfold no_bar in Ha; simpl in Ha; apply andb_true_iff in Ha as [Hc Hr].
    apply negb_true_iff in Hc; rewrite Hc, IH by exact Hr; reflexivity.
Qed.

Lemma exec_seq {A B} (m : M A) (k : M B) (w : World) :
  exec (m ;;; k) w = exec k (exec m w).
Proof. unfold exec, bind; destruct (m w); reflexivity. Qed.

Lemma exec_ret {A} (a : A) (w : World) : exec (ret a) w = w.
Proof. reflexivity. Qed.

Lemma exec_forEach_app {A} (f : A -> M unit) (l1 l2 : list A) (w : World) :
  exec (forEach f (l1 ++ l2)) w = exec (forEach f l2) (exec (forEach f l1) w).
Proof.
  revert w; induction l1 as [|x l1 IH]; intro w; simpl; [reflexivity|].
  rewrite !exec_seq, IH; reflexivity.
Qed.

Lemma blank_app (a b : string) : blank (a ++ b)%string = blank a && blank b.
Proof. induction a as [|c a IH]; simpl; [reflexivity|]. unfold blank in *; simpl; rewrite IH; apply andb_assoc. Qed.

Lemma blank_rev (s : string) : blank (string_rev s) = blank s.
Proof.
  induction s as [|c s IH]; simpl; [reflexivity|].
  rewrite blank_app, IH; unfold blank; simpl; rewrite andb_true_r; apply andb_comm.
Qed.

Lemma truthy_rev (s : string) : truthy (string_rev s) = truthy s.
Proof. destruct s as [|c s]; simpl; [reflexivity|]. destruct (string_rev s); reflexivity. Qed.

Lemma truthy_trim_start (s : string) : truthy (trim_start s) = negb (blank s).
Proof.
  induction s as [|c s IH]; simpl; [reflexivity|].
  unfold blank; simpl; destruct (is_js_ws c); simpl; [exact IH|reflexivity].
Qed.

Lemma blank_trim_start (s : string) : blank (trim_start s) = blank s.
Proof.
  induction s as [|c s IH]; simpl; [reflexivity|].
  destruct (is_js_ws c) eqn:Hc; [|reflexivity].
  rewrite IH; unfold blank; simpl; now rewrite Hc.
Qed.

Lemma truthy_js_trim (s : string) : truthy (js_trim s) = negb (blank s).
Proof.
  unfold js_trim; rewrite truthy_rev, truthy_trim_start, blank_rev, blank_trim_start.
  reflexivity.
Qed.

Lemma prepend_head_empty (l : list string) : prepend_head EmptyString l = l.
Proof. destruct l; reflexivity. Qed.

Lemma string_app_assoc (a b c : string) : (a ++ (b ++ c) = (a ++ b) ++ c)%string.
Proof. induction a as [|x a IH]; simpl; [reflexivity|]; now rewrite IH. Qed.

Lemma string_app_empty (a : string) : (a ++ EmptyString)%string = a.
Proof. induction a as [|x a IH]; simpl; [reflexivity|]; now rewrite IH. Qed.

Lemma frames_gen (s p : string) :
  filter (fun m => negb (blank m)) (removelast (prepend_head p (split_char nul s)))
  = spec_frames p s.
Proof.
  revert p; induction s as [|c rest IH]; intro p; [reflexivity|].
  destruct (Ascii.eqb c nul) eqn:Hc.
  - cbn [split_char spec_frames]; rewrite Hc.
    destruct (split_char_cons nul rest) as (h & t & E).
    rewrite <- (IH EmptyString), prepend_head_empty, E.
    cbn [prepend_head removelast]; rewrite string_app_empty.
    simpl filter; destruct (blank p); reflexivity.
  - destruct (split_char_not_sep nul c rest Hc) as (h & t & E1 & E2).
    cbn [spec_frames]; rewrite Hc, E2, <- IH, E1; cbn [prepend_head].
    rewrite <- string_app_assoc; reflexivity.
Qed.

Lemma segments_frames (data : string) :
  segments data = spec_frames EmptyString data.
Proof.
  unfold segments, slice_0_m1; rewrite <- frames_gen, prepend_head_empty.
  apply filter_ext; intro; apply truthy_js_trim.
Qed.

Lemma no_bar_split (s : string) : no_bar s = true -> split_char bar s = [s].
Proof.
  induction s as [|c s IH]; intro H; [reflexivity|].
  unfold no_bar in H; simpl in H; apply andb_true_iff in H as [Hc Hs].
  apply negb_true_iff in Hc; simpl; rewrite Hc, IH by exact Hs; reflexivity.
Qed.

Lemma split_join_cons (a b : string) (l : list string) :
  no_bar a = true ->
  split_char bar (join "|" (a :: b :: l)) = a :: split_char bar (join "|" (b :: l)).
Proof. intro Ha; apply split_char_app, Ha. Qed.

Lemma field0_head (parts : list string) (c : string) :
  parts <> [] -> head_part parts = c -> field 0 parts = JString c.
Proof. destruct parts; [congruence|]; simpl; intros _ ->; reflexivity. Qed.

Lemma split_not_nil (sep : ascii) (s : string) : split_char sep s <> [].
Proof. destruct (split_char_cons sep s) as (h & t & ->); discriminate. Qed.

Section Traces.

Variable derive : jsval -> jsval -> string.
Variable config : ServerConfig.

Lemma exec_handleNewMessage (parts : list string) (w : World) :
  exec (handleNewMessage derive config parts) w =
  let s := field 1 parts in
  let src := field 2 parts in
  let n := fst (reg_add derive (registry w) s src) in
  mkWorld (snd (reg_add derive (registry w) s src))
    (trace w ++ [ERegAdd s src n;
                 EEmitRoom n (field 0 parts) (PMessage n (join "|" (slice_from 3 parts)) s src);
                 EEmitAll (JString "+ping") (PPing n s src)]
             ++ (if debug config then [ELogDebug (join "|" parts)] else [])).
Proof.
  unfold exec, handleNewMessage, bind, inputs_add, emit_room, emit_all, log_debug, observe.
  destruct (reg_add derive (registry w) (field 1 parts) (field 2 parts)) as [n r'].
  destruct (debug config); simpl; rewrite <- !app_assoc; reflexivity.
Qed.

Lemma exec_handleRegisterInput (parts : list string) (w : World) :
  exec (handleRegisterInput derive config parts) w =
  let s := field 1 parts in
  let src := field 2 parts in
  let n := fst (reg_add derive (registry w) s src) in
  mkWorld (snd (reg_add derive (registry w) s src))
    (trace w ++ [ERegAdd s src n; EEmitAll (field 0 parts) (PInput s src n)]).
Proof.
  unfold exec, handleRegisterInput, bind, inputs_add, emit_all, observe.
  destruct (reg_add derive (registry w) (field 1 parts) (field 2 parts)) as [n r'].
  simpl; rewrite <- !app_assoc; reflexivity.
Qed.

Lemma exec_handleDeregisterInput (parts : list string) (w : World) :
  exec (handleDeregisterInput derive config parts) w =
  let s := field 1 parts in
  let src := field 2 parts in
  let n := fst (reg_remove derive (registry w) s src) in
  mkWorld (snd (reg_remove derive (registry w) s src))
    (trace w ++ [ERegRemove s src n; EEmitAll (field 0 parts) (PInput s src n)]).
Proof.
  unfold exec, handleDeregisterInput, bind, inputs_remove, emit_all, observe.
  destruct (reg_remove derive (registry w) (field 1 parts) (field 2 parts)) as [n r'].
  simpl; rewrite <- !app_assoc; reflexivity.
Qed.

Lemma exec_on_msg_dispatch (msg : string) (h : Handler) (w : World) :
  messageHandlers (head_part (split_char bar msg)) = Some h ->
  exec (on_msg derive config msg) w = exec (run_handler derive h config (split_char bar msg)) w.
Proof. intro H; unfold on_msg; rewrite H; reflexivity. Qed.

Lemma exec_on_msg_unknown (msg : string) (w : World) :
  messageHandlers (head_part (split_char bar msg)) = None ->
  exec (on_msg derive config msg) w =
  mkWorld (registry w) (trace w ++ [ELogError ("Unknown message type: " ++ head_part (split_char bar msg))]).
Proof. intro H; unfold on_msg; rewrite H; reflexivity. Qed.

End Traces.

Lemma dispatched_msgs_app (a b : list Effect) :
  dispatched_msgs (a ++ b) = dispatched_msgs a ++ dispatched_msgs b.
Proof. apply flat_map_app. Qed.

(** ** Claims *)

(** C1.  The segments [broadcastMessage] dispatches, in order, are exactly
    the frames of the specification: the text is split on NUL, the part
    after the last NUL is dropped, and empty or whitespace-only parts are
    discarded.  On the chunk "+msg|a|b|hello\0+msg|a|b|world" only the
    [hello] message is dispatched. *)
Theorem broadcast_dispatches_frames (derive : jsval -> jsval -> string)
  (config : ServerConfig) (data : string) (w : World) :
  segments data = spec_frames EmptyString data /\
  exec (broadcastMessage derive config data) w
    = exec (forEach (on_msg derive config) (spec_frames EmptyString data)) w /\
  segments (terminated "+msg|a|b|hello" ++ "+msg|a|b|world") = ["+msg|a|b|hello"] /\
  dispatched_msgs (trace (exec (broadcastMessage derive config
                                 (terminated "+msg|a|b|hello" ++ "+msg|a|b|world")) w))
    = dispatched_msgs (trace w) ++ ["hello"].
Proof.
  assert (Hex : segments (terminated "+msg|a|b|hello" ++ "+msg|a|b|world") = ["+msg|a|b|hello"])
    by reflexivity.
  split; [apply segments_frames|].
  split; [unfold broadcastMessage; now rewrite segments_frames|].
  split; [exact Hex|].
  unfold broadcastMessage; rewrite Hex; cbn [forEach]; rewrite exec_seq, exec_ret.
  rewrite (exec_on_msg_dispatch derive config _ HNewMessage) by reflexivity.
  cbn [run_handler]; rewrite exec_handleNewMessage; cbv zeta; cbn [trace].
  rewrite !dispatched_msgs_app.
  destruct (debug config); reflexivity.
Qed.

Lemma split_plus_msg (stream source payload : string) :
  no_bar stream = true -> no_bar source = true ->
  split_char bar (join "|" ["+msg"; stream; source; payload])
  = "+msg" :: stream :: source :: split_char bar payload.
Proof.
  intros Hs Hsrc.
  rewrite split_join_cons by reflexivity.
  rewrite split_join_cons by exact Hs.
  rewrite split_join_cons by exact Hsrc.
  reflexivity.
Qed.

(** C2.  The payload of a [+msg] message is every field after the third
    rejoined with '|', so a payload containing '|' is broadcast verbatim;
    "+msg|app|host1|error: a|b|c" broadcasts "error: a|b|c". *)
Theorem new_message_payload_verbatim (derive : jsval -> jsval -> string)
  (config : ServerConfig) (w : World) (stream source payload : string) :
  no_bar stream = true -> no_bar source = true ->
  let msg := join "|" ["+msg"; stream; source; payload] in
  let n := fst (reg_add derive (registry w) (JString stream) (JString source)) in
  trace (exec (on_msg derive config msg) w)
  = trace w ++ [ERegAdd (JString stream) (JString source) n;
                EEmitRoom n (JString "+msg") (PMessage n payload (JString stream) (JString source));
                EEmitAll (JString "+ping") (PPing n (JString stream) (JString source))]
            ++ (if debug config then [ELogDebug msg] else []) /\
  dispatched_msgs (trace (exec (broadcastMessage derive config
                                  (terminated "+msg|app|host1|error: a|b|c")) w))
  = dispatched_msgs (trace w) ++ ["error: a|b|c"].
Proof.
  intros Hs Hsrc msg n; split.
  - assert (Hp := split_plus_msg stream source payload Hs Hsrc).
    rewrite (exec_on_msg_dispatch derive config msg HNewMessage)
      by (unfold msg; rewrite Hp; reflexivity).
    cbn [run_handler]; rewrite exec_handleNewMessage; cbv zeta; cbn [trace].
    assert (Hm : split_char bar msg = "+msg" :: stream :: source :: split_char bar payload)
      by exact Hp.
    rewrite (join_split msg), Hm.
    cbn [field nth_error slice_from skipn]; rewrite join_split; reflexivity.
  - unfold broadcastMessage.
    replace (segments (terminated "+msg|app|host1|error: a|b|c"))
      with ["+msg|app|host1|error: a|b|c"] by reflexivity.
    cbn [forEach]; rewrite exec_seq, exec_ret.
    rewrite (exec_on_msg_dispatch derive config _ HNewMessage) by reflexivity.
    cbn [run_handler]; rewrite exec_handleNewMessage; cbv zeta; cbn [trace].
    rewrite !dispatched_msgs_app; destruct (debug config); reflexivity.
Qed.

(** C10.  A [+msg] message with exactly three fields is not skipped: the
    pair is registered and a message event with the empty payload is
    broadcast. *)
Theorem new_message_three_fields (derive : jsval -> jsval -> string)
  (config : ServerConfig) (w : World) (stream source : string) :
  no_bar stream = true -> no_bar source = true ->
  let msg := join "|" ["+msg"; stream; source] in
  let n := fst (reg_add derive (registry w) (JString stream) (JString source)) in
  exec (on_msg derive config msg) w
  = mkWorld (snd (reg_add derive (registry w) (JString stream) (JString source)))
      (trace w ++ [ERegAdd (JString stream) (JString source) n;
                   EEmitRoom n (JString "+msg") (PMessage n "" (JString stream) (JString source));
                   EEmitAll (JString "+ping") (PPing n (JString stream) (JString source))]
               ++ (if debug config then [ELogDebug msg] else [])).
Proof.
  intros Hs Hsrc msg n.
  assert (Hp : split_char bar msg = ["+msg"; stream; source]).
  { unfold msg; rewrite split_join_cons by reflexivity.
    rewrite split_join_cons by exact Hs.
    cbn [join String.concat]; rewrite no_bar_split by exact Hsrc; reflexivity. }
  rewrite (exec_on_msg_dispatch derive config msg HNewMessage) by (rewrite Hp; reflexivity).
  cbn [run_handler]; rewrite exec_handleNewMessage; cbv zeta.
  rewrite (join_split msg); rewrite Hp; reflexivity.
Qed.

(** C6.  A [+msg] message registers its pair through [inputs.add], emits the
    message event once, to the room of the returned channel id only, and one
    [+ping] carrying channel id, stream and source (no payload) to every
    browser: a browser in that room receives the message once, one outside
    it never, and every browser receives exactly one ping. *)
Theorem new_message_fanout (derive : jsval -> jsval -> string)
  (config : ServerConfig) (msg : string) (w : World) :
  head_part (split_char bar msg) = "+msg" ->
  let parts := split_char bar msg in
  let s := field 1 parts in
  let src := field 2 parts in
  let n := fst (reg_add derive (registry w) s src) in
  let message := EEmitRoom n (JString "+msg") (PMessage n (join "|" (slice_from 3 parts)) s src) in
  let ping := EEmitAll (JString "+ping") (PPing n s src) in
  exists es,
    exec (on_msg derive config msg) w
      = mkWorld (snd (reg_add derive (registry w) s src)) (trace w ++ es) /\
    filter is_emit es = [message; ping] /\
    (forall subs, filter (is_event "+msg") (received subs es)
                  = if existsb (String.eqb n) subs then [message] else []) /\
    (forall subs, filter (is_event "+ping") (received subs es) = [ping]).
Proof.
  intro H; cbv zeta.
  rewrite (exec_on_msg_dispatch derive config msg HNewMessage) by (rewrite H; reflexivity).
  cbn [run_handler]; rewrite exec_handleNewMessage; cbv zeta.
  rewrite (field0_head (split_char bar msg) "+msg") by (apply split_not_nil || exact H).
  eexists; split; [reflexivity|].
  split; [destruct (debug config); reflexivity|].
  split; intro subs; unfold received; destruct (debug config); simpl;
    destruct (existsb _ subs); reflexivity.
Qed.

Ltac in_list_cases H :=
  simpl in H; repeat match type of H with
                     | _ \/ _ => destruct H as [H|H]
                     | False => destruct H
                     end.

(** C9.  For each [+msg], [+input] and [-input] message the registry call
    is the first effect: [add] of the message's stream and source for
    [+msg] and [+input], [remove] of them for [-input].  Every broadcast
    of the message follows it and carries the channel id it returned. *)
Theorem registry_call_before_broadcast (derive : jsval -> jsval -> string)
  (config : ServerConfig) (msg : string) (w : World) :
  In (head_part (split_char bar msg)) ["+msg"; "+input"; "-input"] ->
  exists e es,
    trace (exec (on_msg derive config msg) w) = trace w ++ e :: es /\
    is_reg_effect e = true /\
    (exists n, e = (if String.eqb (head_part (split_char bar msg)) "-input"
                    then ERegRemove else ERegAdd)
                     (field 1 (split_char bar msg)) (field 2 (split_char bar msg)) n) /\
    forallb (fun x => negb (is_reg_effect x)) es = true /\
    existsb is_emit es = true /\
    (forall x, In x es -> is_emit x = true -> effect_inputName x = effect_inputName e).
Proof.
  intro H; in_list_cases H.
  - rewrite (exec_on_msg_dispatch derive config msg HNewMessage) by (rewrite <- H; reflexivity).
    cbn [run_handler]; rewrite exec_handleNewMessage; cbv zeta; cbn [trace].
    do 2 eexists; split; [reflexivity|]; split; [reflexivity|].
    split; [rewrite <- H; eexists; reflexivity|].
    destruct (debug config); repeat split; intros x Hx Hemit; in_list_cases Hx;
      subst x; simpl in *; congruence.
  - rewrite (exec_on_msg_dispatch derive config msg HRegisterInput) by (rewrite <- H; reflexivity).
    cbn [run_handler]; rewrite exec_handleRegisterInput; cbv zeta; cbn [trace].
    do 2 eexists; split; [reflexivity|]; split; [reflexivity|].
    split; [rewrite <- H; eexists; reflexivity|].
    repeat split; intros x Hx Hemit; in_list_cases Hx; subst x; simpl in *; congruence.
  - rewrite (exec_on_msg_dispatch derive config msg HDeregisterInput) by (rewrite <- H; reflexivity).
    cbn [run_handler]; rewrite exec_handleDeregisterInput; cbv zeta; cbn [trace].
    do 2 eexists; split; [reflexivity|]; split; [reflexivity|].
    split; [rewrite <- H; eexists; reflexivity|].
    repeat split; intros x Hx Hemit; in_list_cases Hx; subst x; simpl in *; congruence.
Qed.

(** *** Registry lemmas *)

Lemma find_none_count (r : list Input) (s src : jsval) :
  find (same_key s src) r = None -> count_key r s src = 0.
Proof.
  unfold count_key; induction r as [|i r IH]; simpl; [reflexivity|].
  destruct (same_key s src i); [discriminate|exact IH].
Qed.

Lemma find_some_count (r : list Input) (s src : jsval) (i : Input) :
  find (same_key s src) r = Some i -> 1 <= count_key r s src.
Proof.
  unfold count_key; induction r as [|j r IH]; simpl; [discriminate|].
  destruct (same_key s src j); simpl; [lia|]. intro H; apply IH in H; lia.
Qed.

Lemma find_app_single (f : Input -> bool) (r : list Input) (x : Input) :
  find f r = None -> find f (r ++ [x]) = if f x then Some x else None.
Proof.
  induction r as [|j r IH]; simpl; [reflexivity|].
  destruct (f j); [discriminate|exact IH].
Qed.

Lemma count_key_app (a b : list Input) (s src : jsval) :
  count_key (a ++ b) s src = count_key a s src + count_key b s src.
Proof. unfold count_key; rewrite filter_app, length_app; reflexivity. Qed.

Lemma count_key_filter (g : Input -> bool) (r : list Input) (s src : jsval) :
  count_key (filter g r) s src <= count_key r s src.
Proof.
  unfold count_key; induction r as [|i r IH]; simpl; [lia|].
  destruct (g i); simpl; destruct (same_key s src i); simpl; lia.
Qed.

Lemma find_none_has_key (r : list Input) (s src : jsval) :
  find (same_key s src) r = None <-> ~ has_key r s src.
Proof.
  split.
  - intros H (i & Hi & Hs & Hsrc).
    assert (E := find_none _ _ H i Hi).
    rewrite (proj2 (same_key_true s src i) (conj Hs Hsrc)) in E; discriminate.
  - intro H; destruct (find (same_key s src) r) as [i|] eqn:E; [|reflexivity].
    apply find_some in E as [Hi Hk]; apply same_key_true in Hk as [Hs Hsrc].
    exfalso; apply H; exists i; auto.
Qed.

Lemma removed_has_no_key (r : list Input) (s src : jsval) :
  ~ has_key (filter (fun j => negb (same_key s src j)) r) s src.
Proof.
  intros (i & Hi & Hs & Hsrc); apply filter_In in Hi as [_ Hn].
  rewrite (proj2 (same_key_true s src i) (conj Hs Hsrc)) in Hn; discriminate.
Qed.

Section RegistryFacts.

Variable derive : jsval -> jsval -> string.

Lemma reg_add_unique (r : list Input) (s src : jsval) :
  keys_unique r -> keys_unique (snd (reg_add derive r s src)).
Proof.
  unfold reg_add; intros U s' src'.
  destruct (find (same_key s src) r) eqn:E; [apply U|]; simpl.
  rewrite count_key_app; unfold count_key at 2; simpl.
  destruct (same_key s' src' (mkInput s src (derive s src))) eqn:K; simpl.
  - apply same_key_true in K as [Hs Hsrc]; simpl in Hs, Hsrc; subst s' src'.
    rewrite find_none_count by exact E; lia.
  - specialize (U s' src'); lia.
Qed.

Lemma reg_remove_unique (r : list Input) (s src : jsval) :
  keys_unique r -> keys_unique (snd (reg_remove derive r s src)).
Proof.
  unfold reg_remove; intros U s' src'.
  destruct (find (same_key s src) r); simpl; [|apply U].
  specialize (U s' src'); pose proof (count_key_filter (fun j => negb (same_key s src j)) r s' src'); lia.
Qed.

Lemma reg_add_again (r : list Input) (s src : jsval) :
  reg_add derive (snd (reg_add derive r s src)) s src
  = (fst (reg_add derive r s src), snd (reg_add derive r s src)).
Proof.
  unfold reg_add; destruct (find (same_key s src) r) as [i|] eqn:E; simpl.
  - rewrite E; reflexivity.
  - rewrite find_app_single, same_key_mk by exact E; reflexivity.
Qed.

Lemma reg_add_then_remove (r : list Input) (s src : jsval) :
  fst (reg_remove derive (snd (reg_add derive r s src)) s src) = fst (reg_add derive r s src) /\
  ~ has_key (snd (reg_remove derive (snd (reg_add derive r s src)) s src)) s src.
Proof.
  unfold reg_remove at 1 2.
  assert (F : find (same_key s src) (snd (reg_add derive r s src))
              = Some (mkInput s src (fst (reg_add derive r s src)))
              \/ exists i, find (same_key s src) (snd (reg_add derive r s src)) = Some i
                           /\ in_inputName i = fst (reg_add derive r s src)).
  { unfold reg_add; destruct (find (same_key s src) r) as [i|] eqn:E; simpl.
    - right; exists i; auto.
    - left; rewrite find_app_single, same_key_mk by exact E; reflexivity. }
  destruct F as [F | (i & F & N)]; rewrite F; split; try apply removed_has_no_key; auto.
Qed.

Lemma on_msg_registry (config : ServerConfig) (msg : string) (w : World) :
  registry (exec (on_msg derive config msg) w) = registry w \/
  (exists s src, registry (exec (on_msg derive config msg) w) = snd (reg_add derive (registry w) s src)) \/
  (exists s src, registry (exec (on_msg derive config msg) w) = snd (reg_remove derive (registry w) s src)).
Proof.
  destruct (messageHandlers (head_part (split_char bar msg))) as [h|] eqn:E.
  - rewrite (exec_on_msg_dispatch derive config msg h) by exact E.
    destruct h; cbn [run_handler].
    + rewrite exec_handleNewMessage; right; left; do 2 eexists; reflexivity.
    + rewrite exec_handleRegisterInput; right; left; do 2 eexists; reflexivity.
    + rewrite exec_handleDeregisterInput; right; right; do 2 eexists; reflexivity.
    + left; unfold call_inherited; destruct (_ || _); reflexivity.
  - rewrite exec_on_msg_unknown by exact E; left; reflexivity.
Qed.

Lemma broadcast_keys_unique (config : ServerConfig) (data : string) (w : World) :
  keys_unique (registry w) -> keys_unique (registry (exec (broadcastMessage derive config data) w)).
Proof.
  unfold broadcastMessage; generalize (segments data) as l; intro l; revert w.
  induction l as [|m l IH]; intros w U; [exact U|].
  cbn [forEach]; rewrite exec_seq; apply IH.
  destruct (on_msg_registry config m w) as [-> | [(s & src & ->) | (s & src & ->)]].
  - exact U.
  - apply reg_add_unique, U.
  - apply reg_remove_unique, U.
Qed.

End RegistryFacts.

(** C4.  [add] is idempotent: a second [add] of the same pair returns the
    same channel id and leaves the registry as the first left it, with
    exactly one Input for the pair; at most one Input per pair is an
    invariant of [add], [remove] and of every chunk [broadcastMessage]
    processes. *)
Theorem add_idempotent (derive : jsval -> jsval -> string) (r : list Input) (s src : jsval) :
  keys_unique r ->
  fst (reg_add derive (snd (reg_add derive r s src)) s src) = fst (reg_add derive r s src) /\
  snd (reg_add derive (snd (reg_add derive r s src)) s src) = snd (reg_add derive r s src) /\
  count_key (reg_list (snd (reg_add derive (snd (reg_add derive r s src)) s src))) s src = 1 /\
  keys_unique (snd (reg_add derive r s src)) /\
  keys_unique (snd (reg_remove derive r s src)) /\
  (forall config data w, keys_unique (registry w) ->
     keys_unique (registry (exec (broadcastMessage derive config data) w))).
Proof.
  intro U; rewrite !reg_add_again; cbn [fst snd].
  split; [reflexivity|]. split; [reflexivity|].
  split; [|split; [apply reg_add_unique, U|split; [apply reg_remove_unique, U|]]].
  - unfold reg_list; apply Nat.le_antisymm; [apply reg_add_unique, U|].
    unfold reg_add; destruct (find (same_key s src) r) as [i|] eqn:E; simpl.
    + eapply find_some_count; exact E.
    + rewrite count_key_app, find_none_count by exact E.
      unfold count_key; simpl; rewrite same_key_mk; simpl; lia.
  - intros; apply broadcast_keys_unique; assumption.
Qed.

(** C5.  Removing a pair that is not registered leaves the registry as it
    is and returns the channel id [add] would derive for it; after
    [remove("x","y")] on the empty registry, [list()] is still empty, also
    when the removal comes from a [-input|x|y] message. *)
Theorem remove_unknown_pair (derive : jsval -> jsval -> string) (r : list Input) (s src : jsval) :
  ~ has_key r s src ->
  reg_remove derive r s src = (derive s src, r) /\
  fst (reg_remove derive r s src) = fst (reg_add derive r s src) /\
  reg_list (snd (reg_remove derive [] (JString "x") (JString "y"))) = [] /\
  (forall config w, registry w = [] ->
     registry (exec (on_msg derive config (join "|" ["-input"; "x"; "y"])) w) = []).
Proof.
  intro H; apply find_none_has_key in H.
  unfold reg_remove, reg_add; rewrite H.
  split; [reflexivity|]. split; [reflexivity|]. split; [reflexivity|].
  intros config w Hw.
  rewrite (exec_on_msg_dispatch derive config _ HDeregisterInput) by reflexivity.
  cbn [run_handler]; rewrite exec_handleDeregisterInput; cbv zeta; cbn [registry].
  rewrite Hw; reflexivity.
Qed.

(** C7.  After "+input|app|host1\0" and then "-input|app|host1\0" the pair
    is no longer listed, and every browser receives exactly one [-input]
    event, carrying the channel id the registration returned (the derived
    one when the pair was new). *)
Theorem register_then_deregister (derive : jsval -> jsval -> string)
  (config : ServerConfig) (w : World) :
  let w' := exec (broadcastMessage derive config (terminated "-input|app|host1"))
              (exec (broadcastMessage derive config (terminated "+input|app|host1")) w) in
  ~ has_key (reg_list (registry w')) (JString "app") (JString "host1") /\
  exists n es,
    trace w' = trace w ++ es /\
    In (EEmitAll (JString "+input") (PInput (JString "app") (JString "host1") n)) es /\
    (forall subs, filter (is_event "-input") (received subs es)
                  = [EEmitAll (JString "-input") (PInput (JString "app") (JString "host1") n)]) /\
    (~ has_key (registry w) (JString "app") (JString "host1") ->
       n = derive (JString "app") (JString "host1")).
Proof.
  cbv zeta; unfold broadcastMessage.
  replace (segments (terminated "+input|app|host1")) with ["+input|app|host1"] by reflexivity.
  replace (segments (terminated "-input|app|host1")) with ["-input|app|host1"] by reflexivity.
  cbn [forEach]; rewrite !exec_seq, !exec_ret.
  rewrite (exec_on_msg_dispatch derive config "+input|app|host1" HRegisterInput) by reflexivity.
  cbn [run_handler]; rewrite exec_handleRegisterInput.
  rewrite (exec_on_msg_dispatch derive config _ HDeregisterInput) by reflexivity.
  cbn [run_handler]; rewrite exec_handleDeregisterInput.
  cbv zeta; cbn [registry trace field split_char nth_error bar Ascii.eqb Bool.eqb].
  destruct (reg_add_then_remove derive (registry w) (JString "app") (JString "host1"))
    as [Hn Hk].
  split; [exact Hk|].
  exists (fst (reg_add derive (registry w) (JString "app") (JString "host1"))).
  eexists; split; [rewrite <- app_assoc; reflexivity|].
  split; [simpl; auto|].
  split.
  - intro subs; rewrite Hn; reflexivity.
  - intro Hnk; apply find_none_has_key in Hnk; unfold reg_add; rewrite Hnk; reflexivity.
Qed.

(** C3 (as the code does it).  A segment whose tag is neither one of the
    three handlers nor a property inherited from [Object.prototype] is not
    dispatched: the registry is untouched and exactly one "Unknown message
    type" line is logged; the rest of the batch is processed after it as if
    it were alone.  A segment with a known tag and fewer than three fields
    is not skipped: its handler runs with the missing source [undefined],
    calls the registry and broadcasts. *)
Theorem malformed_segments (derive : jsval -> jsval -> string) (config : ServerConfig) :
  (forall msg w,
     messageHandlers (head_part (split_char bar msg)) = None ->
     exec (on_msg derive config msg) w
     = mkWorld (registry w)
         (trace w ++ [ELogError ("Unknown message type: " ++ head_part (split_char bar msg))])) /\
  (forall data l1 bad l2 w,
     segments data = l1 ++ bad :: l2 ->
     exec (broadcastMessage derive config data) w
     = exec (forEach (on_msg derive config) l2)
         (exec (on_msg derive config bad) (exec (forEach (on_msg derive config) l1) w))) /\
  (forall msg w,
     In (head_part (split_char bar msg)) ["+msg"; "+input"; "-input"] ->
     length (split_char bar msg) < 3 ->
     field 2 (split_char bar msg) = JUndefined /\
     exists e es,
       trace (exec (on_msg derive config msg) w) = trace w ++ e :: es /\
       e = (if String.eqb (head_part (split_char bar msg)) "-input"
            then ERegRemove (field 1 (split_char bar msg)) JUndefined
                   (fst (reg_remove derive (registry w) (field 1 (split_char bar msg)) JUndefined))
            else ERegAdd (field 1 (split_char bar msg)) JUndefined
                   (fst (reg_add derive (registry w) (field 1 (split_char bar msg)) JUndefined))) /\
       existsb is_emit es = true).
Proof.
  split; [intros msg w H; apply exec_on_msg_unknown, H|].
  split.
  - intros data l1 bad l2 w H; unfold broadcastMessage; rewrite H, exec_forEach_app.
    cbn [forEach]; rewrite exec_seq; reflexivity.
  - intros msg w H Hlen.
    assert (U : field 2 (split_char bar msg) = JUndefined).
    { unfold field; rewrite (proj2 (nth_error_None _ _)) by lia; reflexivity. }
    split; [exact U|].
    in_list_cases H.
    + rewrite (exec_on_msg_dispatch derive config msg HNewMessage) by (rewrite <- H; reflexivity).
      cbn [run_handler]; rewrite exec_handleNewMessage; cbv zeta; cbn [trace].
      rewrite <- H, U; do 2 eexists; split; [reflexivity|].
      split; [reflexivity|]; destruct (debug config); reflexivity.
    + rewrite (exec_on_msg_dispatch derive config msg HRegisterInput) by (rewrite <- H; reflexivity).
      cbn [run_handler]; rewrite exec_handleRegisterInput; cbv zeta; cbn [trace].
      rewrite <- H, U; do 2 eexists; split; [reflexivity|]; split; reflexivity.
    + rewrite (exec_on_msg_dispatch derive config msg HDeregisterInput) by (rewrite <- H; reflexivity).
      cbn [run_handler]; rewrite exec_handleDeregisterInput; cbv zeta; cbn [trace].
      rewrite <- H, U; do 2 eexists; split; [reflexivity|]; split; reflexivity.
Qed.

(** C3 fails as stated: the segment "+msg|app" (two fields) is dispatched
    to [handleNewMessage], which registers ("app", undefined) and
    broadcasts. *)
Lemma two_field_segment_dispatched :
  registry (exec (broadcastMessage demo_derive {| debug := false |} (terminated "+msg|app"))
              empty_world) <> [] /\
  trace (exec (broadcastMessage demo_derive {| debug := false |} (terminated "+msg|app"))
           empty_world)
  = [ERegAdd (JString "app") JUndefined "app:undefined";
     EEmitRoom "app:undefined" (JString "+msg")
       (PMessage "app:undefined" "" (JString "app") JUndefined);
     EEmitAll (JString "+ping") (PPing "app:undefined" (JString "app") JUndefined)].
Proof. split; [vm_compute; discriminate | vm_compute; reflexivity]. Qed.

(** C8.  The dispatch table is a plain object, so a tag naming a property
    of [Object.prototype] is found there: "constructor|a|b|c" calls
    [Object] and logs nothing, "__proto__|a|b|c" throws and leaves a
    rejected promise, also without a log line; "bogus|a|b|c" is reported
    once.  In each case the following [+input] message is processed. *)
Theorem inherited_tag_not_reported :
  let run data := trace (exec (broadcastMessage demo_derive {| debug := false |} data) empty_world) in
  let next := [ERegAdd (JString "app") (JString "host1") "app:host1";
               EEmitAll (JString "+input") (PInput (JString "app") (JString "host1") "app:host1")] in
  run (terminated "constructor|a|b|c" ++ terminated "+input|app|host1")%string = next /\
  run (terminated "__proto__|a|b|c" ++ terminated "+input|app|host1")%string = ERejected :: next /\
  run (terminated "bogus|a|b|c" ++ terminated "+input|app|host1")%string
  = ELogError "Unknown message type: bogus" :: next.
Proof. vm_compute; repeat split; reflexivity. Qed.

(** ** Witnesses: the hypotheses of the claims hold on concrete inputs *)


Lemma new_message_payload_verbatim_witness :
  no_bar "app" = true /\ no_bar "host1" = true /\
  dispatched_msgs (trace (exec (on_msg demo_derive quiet
                                  (join "|" ["+msg"; "app"; "host1"; "error: a|b|c"])) empty_world))
  = ["error: a|b|c"].
Proof.
  split; [reflexivity|]. split; [reflexivity|].
  destruct (new_message_payload_verbatim demo_derive quiet empty_world
              "app" "host1" "error: a|b|c" eq_refl eq_refl) as [H _].
  rewrite H; reflexivity.
Defined.

Lemma new_message_three_fields_witness :
  no_bar "app" = true /\ no_bar "host1" = true /\
  dispatched_msgs (trace (exec (on_msg demo_derive quiet (join "|" ["+msg"; "app"; "host1"]))
                            empty_world)) = [""].
Proof.
  split; [reflexivity|]. split; [reflexivity|].
  rewrite (new_message_three_fields demo_derive quiet empty_world "app" "host1" eq_refl eq_refl).
  reflexivity.
Defined.

Lemma new_message_fanout_witness :
  head_part (split_char bar "+msg|app|host1|hi") = "+msg" /\
  exists es,
    exec (on_msg demo_derive quiet "+msg|app|host1|hi") empty_world
    = mkWorld [mkInput (JString "app") (JString "host1") "app:host1"] es /\
    filter is_emit es
    = [EEmitRoom "app:host1" (JString "+msg") (PMessage "app:host1" "hi" (JString "app") (JString "host1"));
       EEmitAll (JString "+ping") (PPing "app:host1" (JString "app") (JString "host1"))].
Proof.
  split; [reflexivity|].
  destruct (new_message_fanout demo_derive quiet "+msg|app|host1|hi" empty_world eq_refl)
    as (es & E & F & _).
  exists es; split; [exact E | exact F].
Defined.

Lemma registry_call_before_broadcast_witness :
  In (head_part (split_char bar "-input|app|host1")) ["+msg"; "+input"; "-input"] /\
  exists e es,
    trace (exec (on_msg demo_derive quiet "-input|app|host1") empty_world) = e :: es /\
    is_reg_effect e = true /\
    exists n, e = ERegRemove (JString "app") (JString "host1") n.
Proof.
  split; [simpl; auto|].
  destruct (registry_call_before_broadcast demo_derive quiet "-input|app|host1" empty_world)
    as (e & es & E & R & K & _); [simpl; auto|].
  exists e, es; split; [exact E|]; split; [exact R|].
  destruct K as [n K]; exists n; exact K.
Defined.

Lemma add_idempotent_witness :
  keys_unique [] /\
  count_key (reg_list (snd (reg_add demo_derive (snd (reg_add demo_derive [] (JString "app") (JString "host1")))
                              (JString "app") (JString "host1")))) (JString "app") (JString "host1") = 1.
Proof.
  assert (U : keys_unique []) by (intros s src; unfold count_key; simpl; lia).
  split; [exact U|].
  exact (proj1 (proj2 (proj2 (add_idempotent demo_derive [] (JString "app") (JString "host1") U)))).
Defined.

Lemma remove_unknown_pair_witness :
  ~ has_key [] (JString "x") (JString "y") /\
  reg_remove demo_derive [] (JString "x") (JString "y") = ("x:y", []).
Proof.
  assert (N : ~ has_key [] (JString "x") (JString "y")) by (intros (i & [] & _)).
  split; [exact N|].
  exact (proj1 (remove_unknown_pair demo_derive [] (JString "x") (JString "y") N)).
Defined.

Lemma malformed_segments_witness :
  messageHandlers (head_part (split_char bar "bogus|a|b|c")) = None /\
  exec (on_msg demo_derive quiet "bogus|a|b|c") empty_world
  = mkWorld [] [ELogError "Unknown message type: bogus"] /\
  In (head_part (split_char bar "+msg|app")) ["+msg"; "+input"; "-input"] /\
  length (split_char bar "+msg|app") < 3 /\
  field 2 (split_char bar "+msg|app") = JUndefined.
Proof.
  destruct (malformed_segments demo_derive quiet) as (P1 & _ & P3).
  split; [reflexivity|]. split; [apply P1; reflexivity|].
  split; [simpl; auto|]. split; [simpl; lia|].
  apply (P3 "+msg|app" empty_world); [simpl; auto | simpl; lia].
Defined.

(** ** Further properties of logger.ts *)

(** *** Framing lemmas *)

Lemma spec_frames_no_nul (s p : string) : no_nul s = true -> spec_frames p s = [].
Proof.
  revert p; induction s as [|c s IH]; intros p H; [reflexivity|].
  unfold no_nul in H; simpl in H; apply andb_true_iff in H as [Hc Hs].
  apply negb_true_iff in Hc; simpl; rewrite Hc; apply IH, Hs.
Qed.

Lemma spec_frames_one (s p b : string) :
  no_nul s = true ->
  spec_frames p (s ++ String nul b)
  = (if blank (p ++ s) then [] else [(p ++ s)%string]) ++ spec_frames EmptyString b.
Proof.
  revert p; induction s as [|c s IH]; intros p H.
  - cbn [append spec_frames]; rewrite Ascii.eqb_refl, string_app_empty; reflexivity.
  - unfold no_nul in H; simpl in H; apply andb_true_iff in H as [Hc Hs].
    apply negb_true_iff in Hc; cbn [append spec_frames]; rewrite Hc, IH by exact Hs.
    rewrite <- string_app_assoc; reflexivity.
Qed.

Lemma spec_frames_app_term (a b p : string) :
  spec_frames p (a ++ String nul b)
  = spec_frames p (a ++ String nul EmptyString) ++ spec_frames EmptyString b.
Proof.
  revert p; induction a as [|c a IH]; intro p.
  - cbn [append spec_frames]; rewrite Ascii.eqb_refl, !app_nil_r; reflexivity.
  - cbn [append spec_frames]; destruct (Ascii.eqb c nul).
    + rewrite IH, app_assoc; reflexivity.
    + apply IH.
Qed.

Lemma syslog_frame_segments (m : string) :
  no_nul m = true ->
  segments ("+msg|syslog|localhost|" ++ m ++ String nul EmptyString)%string
  = [("+msg|syslog|localhost|" ++ m)%string].
Proof.
  intro H; rewrite segments_frames, string_app_assoc, spec_frames_one.
  - rewrite blank_app; reflexivity.
  - unfold no_nul in *; simpl; exact H.
Qed.

Lemma syslog_frame_fields (m : string) :
  ("+msg|syslog|localhost|" ++ m)%string = join "|" ["+msg"; "syslog"; "localhost"; m].
Proof. reflexivity. Qed.

Section MoreTraces.

Variable derive : jsval -> jsval -> string.
Variable config : ServerConfig.

Lemma exec_on_plus_msg (w : World) (stream source payload : string) :
  no_bar stream = true -> no_bar source = true ->
  exec (on_msg derive config (join "|" ["+msg"; stream; source; payload])) w
  = let n := fst (reg_add derive (registry w) (JString stream) (JString source)) in
    mkWorld (snd (reg_add derive (registry w) (JString stream) (JString source)))
      (trace w ++ [ERegAdd (JString stream) (JString source) n;
                   EEmitRoom n (JString "+msg") (PMessage n payload (JString stream) (JString source));
                   EEmitAll (JString "+ping") (PPing n (JString stream) (JString source))]
               ++ (if debug config then [ELogDebug (join "|" ["+msg"; stream; source; payload])]
                   else [])).
Proof.
  intros Hs Hsrc.
  set (msg := join "|" ["+msg"; stream; source; payload]).
  assert (Hm : split_char bar msg = "+msg" :: stream :: source :: split_char bar payload)
    by exact (split_plus_msg stream source payload Hs Hsrc).
  rewrite (exec_on_msg_dispatch derive config msg HNewMessage) by (rewrite Hm; reflexivity).
  cbn [run_handler]; rewrite exec_handleNewMessage; cbv zeta.
  rewrite (join_split msg), Hm.
  cbn [field nth_error slice_from skipn]; rewrite join_split; reflexivity.
Qed.

End MoreTraces.

(** X1.  A syslog record whose text has no NUL is broadcast as exactly one
    message of the input (syslog, localhost): the registry changes only by
    [add] of that pair, and the trace grows by that [add], the ['+msg']
    event to the room of the channel id it returned, carrying the text
    verbatim (also when it contains '|') with stream "syslog" and source
    "localhost", the ['+ping'] of that channel, and the debug line when
    debugging is on. *)
Theorem syslog_message_verbatim (derive : jsval -> jsval -> string)
  (config : ServerConfig) (w : World) (m : string) :
  no_nul m = true ->
  let syslog := JString "syslog" in
  let localhost := JString "localhost" in
  let n := fst (reg_add derive (registry w) syslog localhost) in
  let w' := exec (on_syslog_message derive config m) w in
  registry w' = snd (reg_add derive (registry w) syslog localhost) /\
  trace w' = trace w ++ [ERegAdd syslog localhost n;
                         EEmitRoom n (JString "+msg") (PMessage n m syslog localhost);
                         EEmitAll (JString "+ping") (PPing n syslog localhost)]
                     ++ (if debug config then [ELogDebug ("+msg|syslog|localhost|" ++ m)%string]
                         else []) /\
  dispatched_msgs (trace w') = dispatched_msgs (trace w) ++ [m].
Proof.
  intro H; cbv zeta; unfold on_syslog_message, broadcastMessage.
  rewrite syslog_frame_segments by exact H; cbn [forEach]; rewrite exec_seq, exec_ret.
  rewrite syslog_frame_fields, exec_on_plus_msg by reflexivity; cbv zeta; cbn [registry trace].
  split; [reflexivity|]. split; [rewrite <- syslog_frame_fields; reflexivity|].
  rewrite !dispatched_msgs_app; destruct (debug config); reflexivity.
Qed.

(** X2.  A NUL inside a syslog record's text ends the frame there: the text
    after it is read as a frame of its own and routed by its own tag. *)
Theorem syslog_nul_splits_frame (derive : jsval -> jsval -> string)
  (config : ServerConfig) (w : World) (m f : string) :
  no_nul m = true -> no_nul f = true -> blank f = false ->
  exec (on_syslog_message derive config (m ++ String nul f)%string) w
  = exec (on_msg derive config f)
      (exec (on_msg derive config ("+msg|syslog|localhost|" ++ m)%string) w).
Proof.
  intros Hm Hf Hb; unfold on_syslog_message, broadcastMessage.
  replace (segments ("+msg|syslog|localhost|" ++ (m ++ String nul f) ++ String nul EmptyString)%string)
    with [("+msg|syslog|localhost|" ++ m)%string; f].
  - cbn [forEach]; rewrite !exec_seq, !exec_ret; reflexivity.
  - assert (E : ("+msg|syslog|localhost|" ++ (m ++ String nul f) ++ String nul EmptyString)%string
                 = (("+msg|syslog|localhost|" ++ m) ++ String nul (f ++ String nul EmptyString))%string).
    { rewrite <- !string_app_assoc; reflexivity. }
    rewrite segments_frames, E.
    rewrite spec_frames_one by (unfold no_nul in *; simpl; exact Hm).
    rewrite spec_frames_one by exact Hf.
    rewrite blank_app; cbn [append]; rewrite Hb; reflexivity.
Qed.

(** X6.  Cutting a TCP stream right after a NUL does not change what is
    processed, as long as the first part leaves no rejected promise (which
    would end the process before the second chunk arrives): the chunk
    [a ++ NUL ++ b] has the segments of [a ++ NUL] followed by those of [b],
    and the connection handles it as it handles the two chunks in turn. *)
Theorem chunk_split_at_terminator (derive : jsval -> jsval -> string)
  (config : ServerConfig) (w : World) (a b : string) :
  existsb is_rejected
    (trace (exec (broadcastMessage derive config (a ++ String nul EmptyString)) w)) = false ->
  segments (a ++ String nul b)
  = segments (a ++ String nul EmptyString) ++ segments b /\
  on_data_chunks derive config [(a ++ String nul b)%string] w
  = on_data_chunks derive config [(a ++ String nul EmptyString)%string; b] w.
Proof.
  intro H.
  assert (S : segments (a ++ String nul b)
              = segments (a ++ String nul EmptyString) ++ segments b)
    by (rewrite !segments_frames; apply spec_frames_app_term).
  split; [exact S|]; cbn [on_data_chunks]; rewrite H.
  assert (E : exec (broadcastMessage derive config (a ++ String nul b)) w
              = exec (broadcastMessage derive config b)
                  (exec (broadcastMessage derive config (a ++ String nul EmptyString)) w))
    by (unfold broadcastMessage; rewrite S; apply exec_forEach_app).
  rewrite E; destruct (existsb is_rejected _); reflexivity.
Qed.

(** X7.  A chunk that contains no NUL is dropped whole: the registry and
    every observer are left exactly as they were. *)
Theorem chunk_without_terminator_ignored (derive : jsval -> jsval -> string)
  (config : ServerConfig) (w : World) (data : string) :
  no_nul data = true ->
  exec (broadcastMessage derive config data) w = w.
Proof.
  intro H; unfold broadcastMessage; rewrite segments_frames, spec_frames_no_nul by exact H.
  reflexivity.
Qed.

(** *** More router lemmas *)

Lemma reg_add_has_key (derive : jsval -> jsval -> string) (r : list Input) (s src : jsval) :
  has_key (snd (reg_add derive r s src)) s src.
Proof.
  unfold reg_add; destruct (find (same_key s src) r) as [i|] eqn:E; simpl.
  - apply find_some in E as [Hi Hk]; apply same_key_true in Hk as [Hs Hsrc].
    exists i; auto.
  - exists (mkInput s src (derive s src)); rewrite in_app_iff; simpl; auto.
Qed.

Lemma reg_remove_no_key (derive : jsval -> jsval -> string) (r : list Input) (s src : jsval) :
  ~ has_key (snd (reg_remove derive r s src)) s src.
Proof.
  unfold reg_remove; destruct (find (same_key s src) r) eqn:E; simpl.
  - apply removed_has_no_key.
  - apply find_none_has_key, E.
Qed.

Lemma messageHandlers_new (k : string) :
  messageHandlers k = Some HNewMessage -> k = "+msg".
Proof.
  unfold messageHandlers.
  destruct (String.eqb k "+msg") eqn:E1; [intros _; apply String.eqb_eq, E1|].
  destruct (String.eqb k "+input"); [discriminate|].
  destruct (String.eqb k "-input"); [discriminate|].
  destruct (existsb _ _); discriminate.
Qed.

Lemma messageHandlers_not_new (k : string) :
  messageHandlers k <> Some HNewMessage -> String.eqb k "+msg" = false.
Proof.
  unfold messageHandlers; destruct (String.eqb k "+msg"); [congruence | reflexivity].
Qed.

Lemma ws_ascii_neq (c d : ascii) : is_js_ws c = true -> is_js_ws d = false -> Ascii.eqb c d = false.
Proof.
  intros Hc Hd; destruct (Ascii.eqb c d) eqn:E; [|reflexivity].
  apply Ascii.eqb_eq in E; subst; congruence.
Qed.

Lemma count_on_connection (r : list Input) (s src : jsval) :
  length (filter (fun e => same_key s src (snd e)) (on_connection r)) = count_key r s src.
Proof.
  unfold on_connection, reg_list, count_key; induction r as [|i r IH]; [reflexivity|].
  simpl; destruct (same_key s src i); simpl; rewrite IH; reflexivity.
Qed.

Lemma existsb_filter_other (room n : string) (rooms : list string) :
  room <> n ->
  existsb (String.eqb room) (filter (fun r => negb (String.eqb n r)) rooms)
  = existsb (String.eqb room) rooms.
Proof.
  intro Hne; induction rooms as [|x rooms IH]; [reflexivity|]; simpl.
  destruct (String.eqb n x) eqn:E; simpl; rewrite IH; [|reflexivity].
  apply String.eqb_eq in E; subst x.
  apply String.eqb_neq in Hne; rewrite Hne; reflexivity.
Qed.

Lemma existsb_filter_same (n : string) (rooms : list string) :
  existsb (String.eqb n) (filter (fun r => negb (String.eqb n r)) rooms) = false.
Proof.
  induction rooms as [|x rooms IH]; [reflexivity|]; simpl.
  destruct (String.eqb n x) eqn:E; simpl; [exact IH|]; rewrite E; exact IH.
Qed.

Lemma on_msg_emits (derive : jsval -> jsval -> string) (config : ServerConfig)
  (msg : string) (w : World) :
  exists es, trace (exec (on_msg derive config msg) w) = trace w ++ es /\
             length (filter is_emit es) = emit_weight msg.
Proof.
  unfold emit_weight.
  destruct (messageHandlers (head_part (split_char bar msg))) as [h|] eqn:E.
  - rewrite (exec_on_msg_dispatch derive config msg h) by exact E.
    destruct h; cbn [run_handler].
    + rewrite exec_handleNewMessage; cbv zeta; cbn [trace].
      eexists; split; [reflexivity|]; destruct (debug config); reflexivity.
    + rewrite exec_handleRegisterInput; eexists; split; reflexivity.
    + rewrite exec_handleDeregisterInput; eexists; split; reflexivity.
    + unfold call_inherited; destruct (_ || _).
      * exists []; rewrite app_nil_r; split; reflexivity.
      * eexists; split; reflexivity.
  - rewrite exec_on_msg_unknown by exact E; eexists; split; reflexivity.
Qed.

(** Syslog records handled one after another, while the registry holds
    (syslog, localhost) as [add] left it, keep it so and are each emitted
    to the room of its channel id. *)
Lemma syslog_records_same_channel (derive : jsval -> jsval -> string)
  (config : ServerConfig) (r : list Input) (ms : list string) (w : World) :
  forallb no_nul ms = true ->
  registry w = snd (reg_add derive r (JString "syslog") (JString "localhost")) ->
  let n := fst (reg_add derive r (JString "syslog") (JString "localhost")) in
  let w2 := exec (forEach (on_syslog_message derive config) ms) w in
  registry w2 = registry w /\
  (exists es, trace w2 = trace w ++ es) /\
  (forall m, In m ms ->
     In (EEmitRoom n (JString "+msg") (PMessage n m (JString "syslog") (JString "localhost")))
        (trace w2)).
Proof.
  revert w; induction ms as [|m ms IH]; intros w Hn Hr; cbv zeta.
  - cbn [forEach]; rewrite exec_ret; split; [reflexivity|].
    split; [exists []; rewrite app_nil_r; reflexivity | intros m []].
  - cbn [forEach]; rewrite exec_seq; simpl in Hn; apply andb_prop in Hn as [Hm Hms].
    set (n := fst (reg_add derive r (JString "syslog") (JString "localhost"))).
    set (X := [ERegAdd (JString "syslog") (JString "localhost") n;
               EEmitRoom n (JString "+msg") (PMessage n m (JString "syslog") (JString "localhost"));
               EEmitAll (JString "+ping") (PPing n (JString "syslog") (JString "localhost"))]
              ++ (if debug config then [ELogDebug (join "|" ["+msg"; "syslog"; "localhost"; m])]
                  else [])).
    assert (W1 : exec (on_syslog_message derive config m) w = mkWorld (registry w) (trace w ++ X)).
    { unfold on_syslog_message, broadcastMessage.
      rewrite syslog_frame_segments by exact Hm; cbn [forEach]; rewrite exec_seq, exec_ret.
      rewrite syslog_frame_fields, exec_on_plus_msg by reflexivity; cbv zeta.
      rewrite Hr, reg_add_again; reflexivity. }
    rewrite W1.
    specialize (IH (mkWorld (registry w) (trace w ++ X)) Hms Hr); cbv zeta in IH.
    destruct IH as (R & (es & E) & I); fold n in I.
    split; [exact R|].
    split; [exists (X ++ es); rewrite E; cbn [trace]; rewrite <- app_assoc; reflexivity|].
    intros m' [<-|Hin]; [|exact (I m' Hin)].
    rewrite E; cbn [trace]; apply in_or_app; left; apply in_or_app; right.
    unfold X; apply in_or_app; left; simpl; auto.
Qed.

(** X3.  The startup registration of the syslog input adds (syslog,
    localhost) and announces it with one ['+input'] to every browser; the
    syslog records (without NUL) handled after it, as long as no other
    chunk comes between them, each go to the room of that same channel id
    and leave the registry as it is. *)
Theorem syslog_input_registered_at_startup (derive : jsval -> jsval -> string)
  (config : ServerConfig) (w : World) (ms : list string) :
  forallb no_nul ms = true ->
  let syslog := JString "syslog" in
  let localhost := JString "localhost" in
  let n := fst (reg_add derive (registry w) syslog localhost) in
  let w1 := exec (register_syslog_input derive config) w in
  let w2 := exec (forEach (on_syslog_message derive config) ms) w1 in
  has_key (registry w1) syslog localhost /\
  trace w1 = trace w ++ [ERegAdd syslog localhost n;
                         EEmitAll (JString "+input") (PInput syslog localhost n)] /\
  registry w2 = registry w1 /\
  (forall m, In m ms -> In (EEmitRoom n (JString "+msg") (PMessage n m syslog localhost)) (trace w2)).
Proof.
  intro H; cbv zeta.
  assert (W1 : exec (register_syslog_input derive config) w
               = mkWorld (snd (reg_add derive (registry w) (JString "syslog") (JString "localhost")))
                   (trace w ++ [ERegAdd (JString "syslog") (JString "localhost")
                                  (fst (reg_add derive (registry w) (JString "syslog") (JString "localhost")));
                                EEmitAll (JString "+input")
                                  (PInput (JString "syslog") (JString "localhost")
                                     (fst (reg_add derive (registry w) (JString "syslog") (JString "localhost"))))])).
  { unfold register_syslog_input, broadcastMessage.
    replace (segments ("+input|syslog|localhost" ++ String nul EmptyString)%string)
      with ["+input|syslog|localhost"] by reflexivity.
    cbn [forEach]; rewrite exec_seq, exec_ret.
    rewrite (exec_on_msg_dispatch derive config _ HRegisterInput) by reflexivity.
    cbn [run_handler]; rewrite exec_handleRegisterInput; reflexivity. }
  assert (Hr : registry (exec (register_syslog_input derive config) w)
               = snd (reg_add derive (registry w) (JString "syslog") (JString "localhost")))
    by (rewrite W1; reflexivity).
  destruct (syslog_records_same_channel derive config (registry w) ms
              (exec (register_syslog_input derive config) w) H Hr) as (R & _ & I).
  split; [rewrite Hr; apply reg_add_has_key|].
  split; [rewrite W1; reflexivity|].
  split; [exact R | exact I].
Qed.

(** X4.  From the empty registry the server starts with, after any
    sequence of TCP chunks, a newly connected browser is sent one
    ['+input'] for each registered (stream, source) pair and none for any
    other pair. *)
Theorem connection_replays_each_input_once (derive : jsval -> jsval -> string)
  (config : ServerConfig) (chunks : list string) (s src : jsval) :
  let r := registry (exec (forEach (broadcastMessage derive config) chunks) empty_world) in
  (has_key r s src -> length (filter (fun e => same_key s src (snd e)) (on_connection r)) = 1) /\
  (~ has_key r s src -> length (filter (fun e => same_key s src (snd e)) (on_connection r)) = 0).
Proof.
  cbv zeta; rewrite !count_on_connection.
  assert (U : keys_unique (registry (exec (forEach (broadcastMessage derive config) chunks) empty_world))).
  { assert (U0 : forall w, keys_unique (registry w) ->
                 keys_unique (registry (exec (forEach (broadcastMessage derive config) chunks) w))).
    { induction chunks as [|c cs IH]; intros w Uw; [exact Uw|].
      cbn [forEach]; rewrite exec_seq; apply IH, broadcast_keys_unique, Uw. }
    apply U0; intros s' src'; unfold count_key; simpl; lia. }
  split.
  - intro Hk; apply Nat.le_antisymm; [apply U|].
    destruct (find (same_key s src) (registry (exec (forEach (broadcastMessage derive config) chunks) empty_world)))
      as [i|] eqn:E.
    + eapply find_some_count; exact E.
    + apply find_none_has_key in E; contradiction.
  - intro Hk; apply find_none_count, find_none_has_key, Hk.
Qed.

(** X5.  After ['+activate'] of a channel id a browser receives what is
    emitted to that room (joining twice is joining once); after
    ['-activate'] it no longer does; either leaves its delivery from every
    other room unchanged. *)
Theorem activate_controls_room_delivery (s : Socket) (n room : string) (ev : jsval) (p : Payload) :
  delivered (socket_rooms (on_browser_event (Activate n) s)) (EEmitRoom n ev p) = true /\
  delivered (socket_rooms (on_browser_event (Deactivate n) s)) (EEmitRoom n ev p) = false /\
  on_browser_event (Activate n) (on_browser_event (Activate n) s) = on_browser_event (Activate n) s /\
  (room <> n ->
   delivered (socket_rooms (on_browser_event (Activate n) s)) (EEmitRoom room ev p)
   = delivered (socket_rooms s) (EEmitRoom room ev p) /\
   delivered (socket_rooms (on_browser_event (Deactivate n) s)) (EEmitRoom room ev p)
   = delivered (socket_rooms s) (EEmitRoom room ev p)).
Proof.
  destruct s as [id rooms]; unfold on_browser_event, socket_join, socket_leave.
  cbn [socket_rooms delivered].
  split; [|split; [apply existsb_filter_same|split]].
  - destruct (existsb (String.eqb n) rooms) eqn:E; cbn [socket_rooms]; [exact E|].
    rewrite existsb_app; simpl; rewrite String.eqb_refl, orb_true_r; reflexivity.
  - destruct (existsb (String.eqb n) rooms) eqn:E; cbn [socket_rooms].
    + rewrite E; reflexivity.
    + rewrite existsb_app; simpl; rewrite String.eqb_refl, orb_true_r; reflexivity.
  - intro Hne; split; [|apply existsb_filter_other, Hne].
    destruct (existsb (String.eqb n) rooms); cbn [socket_rooms]; [reflexivity|].
    rewrite existsb_app; simpl; apply String.eqb_neq in Hne; rewrite Hne, orb_false_r; reflexivity.
Qed.

(** X8.  Frames are not trimmed before dispatch (only the blank test trims):
    a segment that starts with whitespace, such as a newline the producer
    sent after the previous NUL, has a tag no handler matches and is
    reported as an unknown message type, with no registry change. *)
Theorem leading_whitespace_frame_unknown (derive : jsval -> jsval -> string)
  (config : ServerConfig) (w : World) (c : ascii) (rest : string) :
  is_js_ws c = true ->
  exec (on_msg derive config (String c rest)) w
  = mkWorld (registry w)
      (trace w ++ [ELogError ("Unknown message type: " ++ String c (head_part (split_char bar rest)))]).
Proof.
  intro Hc.
  assert (Hb : Ascii.eqb c bar = false) by (apply ws_ascii_neq; [exact Hc | reflexivity]).
  destruct (split_char_not_sep bar c rest Hb) as (h & t & E1 & E2).
  assert (Hh : head_part (split_char bar (String c rest)) = String c (head_part (split_char bar rest)))
    by (rewrite E2, E1; reflexivity).
  assert (N : messageHandlers (String c h) = None).
  { unfold messageHandlers, object_prototype_keys.
    cbn [String.eqb existsb].
    rewrite !(ws_ascii_neq c) by (exact Hc || reflexivity); reflexivity. }
  rewrite exec_on_msg_unknown.
  - rewrite Hh; reflexivity.
  - rewrite E2; exact N.
Qed.

(** X9.  A segment whose tag names a property of [Object.prototype] never
    produces a diagnostic, a broadcast or a registry change: for
    "constructor" and "toString" nothing at all is observed, for the other
    names only a rejected promise. *)
Theorem inherited_tag_silent (derive : jsval -> jsval -> string)
  (config : ServerConfig) (msg : string) (w : World) :
  In (head_part (split_char bar msg)) object_prototype_keys ->
  exec (on_msg derive config msg) w
  = mkWorld (registry w)
      (trace w ++ (if String.eqb (head_part (split_char bar msg)) "constructor"
                      || String.eqb (head_part (split_char bar msg)) "toString"
                   then [] else [ERejected])).
Proof.
  intro H.
  assert (Hh : messageHandlers (head_part (split_char bar msg))
               = Some (HInherited (head_part (split_char bar msg))))
    by (unfold object_prototype_keys in H; in_list_cases H; rewrite <- H; reflexivity).
  rewrite (exec_on_msg_dispatch derive config msg _ w Hh); cbn [run_handler].
  unfold call_inherited; destruct (_ || _).
  - rewrite app_nil_r; destruct w; reflexivity.
  - reflexivity.
Qed.

(** X10.  The router does not deduplicate announcements: a [+input] for a
    pair that is already registered leaves the registry unchanged but still
    emits ['+input'] to every browser, with the channel id stored for the
    pair. *)
Theorem known_input_reannounced (derive : jsval -> jsval -> string)
  (config : ServerConfig) (msg : string) (w : World) :
  head_part (split_char bar msg) = "+input" ->
  let s := field 1 (split_char bar msg) in
  let src := field 2 (split_char bar msg) in
  has_key (registry w) s src ->
  exists i,
    In i (registry w) /\ in_stream i = s /\ in_source i = src /\
    exec (on_msg derive config msg) w
    = mkWorld (registry w)
        (trace w ++ [ERegAdd s src (in_inputName i);
                     EEmitAll (JString "+input") (PInput s src (in_inputName i))]).
Proof.
  intros H; cbv zeta; intro Hk.
  rewrite (exec_on_msg_dispatch derive config msg HRegisterInput) by (rewrite H; reflexivity).
  cbn [run_handler]; rewrite exec_handleRegisterInput; cbv zeta.
  rewrite (field0_head (split_char bar msg) "+input") by (apply split_not_nil || exact H).
  set (s := field 1 (split_char bar msg)) in *; set (src := field 2 (split_char bar msg)) in *.
  destruct (find (same_key s src) (registry w)) as [i|] eqn:E.
  - exists i; unfold reg_add; rewrite E.
    apply find_some in E as [Hi Hs]; apply same_key_true in Hs as [Hs1 Hs2].
    split; [exact Hi|]. split; [exact Hs1|]. split; [exact Hs2|].
    reflexivity.
  - apply find_none_has_key in E; contradiction.
Qed.

(** X11.  After a [+msg] or [+input] segment its (stream, source) pair is
    registered; after a [-input] segment it is not, whatever the registry
    held before. *)
Theorem registry_membership_after_message (derive : jsval -> jsval -> string)
  (config : ServerConfig) (msg : string) (w : World) :
  let parts := split_char bar msg in
  ((head_part parts = "+msg" \/ head_part parts = "+input") ->
   has_key (registry (exec (on_msg derive config msg) w)) (field 1 parts) (field 2 parts)) /\
  (head_part parts = "-input" ->
   ~ has_key (registry (exec (on_msg derive config msg) w)) (field 1 parts) (field 2 parts)).
Proof.
  cbv zeta; split.
  - intros [H|H].
    + rewrite (exec_on_msg_dispatch derive config msg HNewMessage) by (rewrite H; reflexivity).
      cbn [run_handler]; rewrite exec_handleNewMessage; apply reg_add_has_key.
    + rewrite (exec_on_msg_dispatch derive config msg HRegisterInput) by (rewrite H; reflexivity).
      cbn [run_handler]; rewrite exec_handleRegisterInput; apply reg_add_has_key.
  - intro H.
    rewrite (exec_on_msg_dispatch derive config msg HDeregisterInput) by (rewrite H; reflexivity).
    cbn [run_handler]; rewrite exec_handleDeregisterInput; apply reg_remove_no_key.
Qed.

(** X12.  A segment logs a debug line only when [config.debug] is set and
    its tag is [+msg]; that line is then the segment itself, verbatim. *)
Theorem debug_line_is_raw_segment (derive : jsval -> jsval -> string)
  (config : ServerConfig) (msg : string) (w : World) :
  exists es,
    trace (exec (on_msg derive config msg) w) = trace w ++ es /\
    filter is_debug_line es
    = if debug config && String.eqb (head_part (split_char bar msg)) "+msg"
      then [ELogDebug msg] else [].
Proof.
  destruct (messageHandlers (head_part (split_char bar msg))) as [h|] eqn:E.
  - rewrite (exec_on_msg_dispatch derive config msg h) by exact E.
    destruct h; cbn [run_handler].
    + apply messageHandlers_new in E; rewrite E, String.eqb_refl, andb_true_r.
      rewrite exec_handleNewMessage, join_split; cbv zeta; cbn [trace].
      eexists; split; [reflexivity|]; destruct (debug config); reflexivity.
    + rewrite (messageHandlers_not_new _ ltac:(rewrite E; discriminate)), andb_false_r.
      rewrite exec_handleRegisterInput; eexists; split; reflexivity.
    + rewrite (messageHandlers_not_new _ ltac:(rewrite E; discriminate)), andb_false_r.
      rewrite exec_handleDeregisterInput; eexists; split; reflexivity.
    + rewrite (messageHandlers_not_new _ ltac:(rewrite E; discriminate)), andb_false_r.
      unfold call_inherited; destruct (_ || _).
      * exists []; rewrite app_nil_r; split; reflexivity.
      * eexists; split; reflexivity.
  - rewrite (messageHandlers_not_new _ ltac:(rewrite E; discriminate)), andb_false_r.
    rewrite exec_on_msg_unknown by exact E; eexists; split; reflexivity.
Qed.

(** X13.  The number of socket.io emissions a chunk causes is two per
    [+msg] segment plus one per [+input] or [-input] segment; other
    segments cause none. *)
Theorem broadcast_emission_count (derive : jsval -> jsval -> string)
  (config : ServerConfig) (data : string) (w : World) :
  exists es,
    trace (exec (broadcastMessage derive config data) w) = trace w ++ es /\
    length (filter is_emit es) = list_sum (map emit_weight (segments data)).
Proof.
  unfold broadcastMessage; generalize (segments data) as l; intro l; revert w.
  induction l as [|m l IH]; intro w.
  - exists []; rewrite app_nil_r; split; reflexivity.
  - cbn [forEach]; rewrite exec_seq.
    destruct (on_msg_emits derive config m w) as (es1 & E1 & C1).
    destruct (IH (exec (on_msg derive config m) w)) as (es2 & E2 & C2).
    exists (es1 ++ es2); rewrite E2, E1, <- app_assoc; split; [reflexivity|].
    rewrite filter_app, length_app, C1, C2; reflexivity.
Qed.

(** *** Witnesses for the hypotheses above *)

Lemma syslog_message_verbatim_witness :
  no_nul "disk a|b full" = true /\
  let n := fst (reg_add demo_derive [] (JString "syslog") (JString "localhost")) in
  In (EEmitRoom n (JString "+msg") (PMessage n "disk a|b full" (JString "syslog") (JString "localhost")))
     (trace (exec (on_syslog_message demo_derive quiet "disk a|b full") empty_world)) /\
  dispatched_msgs (trace (exec (on_syslog_message demo_derive quiet "disk a|b full") empty_world))
  = ["disk a|b full"].
Proof.
  split; [reflexivity|]; cbv zeta.
  destruct (syslog_message_verbatim demo_derive quiet empty_world "disk a|b full" eq_refl)
    as (_ & T & D).
  split; [|exact D].
  cbv zeta in T; rewrite T; simpl; auto.
Defined.

Lemma chunk_split_at_terminator_witness :
  existsb is_rejected
    (trace (exec (broadcastMessage demo_derive quiet ("+input|p|q" ++ String nul EmptyString)%string)
              empty_world)) = false /\
  on_data_chunks demo_derive quiet [("+input|p|q" ++ String nul "+msg|p|q|hi" ++ String nul EmptyString)%string]
    empty_world
  = on_data_chunks demo_derive quiet
      [("+input|p|q" ++ String nul EmptyString)%string; ("+msg|p|q|hi" ++ String nul EmptyString)%string]
      empty_world.
Proof.
  split; [vm_compute; reflexivity|].
  exact (proj2 (chunk_split_at_terminator demo_derive quiet empty_world "+input|p|q"
                  ("+msg|p|q|hi" ++ String nul EmptyString)%string ltac:(vm_compute; reflexivity))).
Defined.

Lemma syslog_nul_splits_frame_witness :
  no_nul "x" = true /\ no_nul "+input|evil|host" = true /\ blank "+input|evil|host" = false /\
  exec (on_syslog_message demo_derive quiet ("x" ++ String nul "+input|evil|host")%string) empty_world
  = exec (on_msg demo_derive quiet "+input|evil|host")
      (exec (on_msg demo_derive quiet "+msg|syslog|localhost|x") empty_world).
Proof.
  split; [reflexivity|]. split; [reflexivity|]. split; [reflexivity|].
  exact (syslog_nul_splits_frame demo_derive quiet empty_world "x" "+input|evil|host"
           eq_refl eq_refl eq_refl).
Defined.

Lemma syslog_input_registered_at_startup_witness :
  forallb no_nul ["boot"; "disk a|b full"] = true /\
  registry (exec (forEach (on_syslog_message demo_derive quiet) ["boot"; "disk a|b full"])
              (exec (register_syslog_input demo_derive quiet) empty_world))
  = registry (exec (register_syslog_input demo_derive quiet) empty_world).
Proof.
  split; [reflexivity|].
  exact (proj1 (proj2 (proj2
           (syslog_input_registered_at_startup demo_derive quiet empty_world
              ["boot"; "disk a|b full"] eq_refl)))).
Defined.

Lemma connection_replays_each_input_once_witness :
  let chunks := [terminated "+input|app|host1"; terminated "+msg|app|host1|hi"] in
  let r := registry (exec (forEach (broadcastMessage demo_derive quiet) chunks) empty_world) in
  has_key r (JString "app") (JString "host1") /\
  length (filter (fun e => same_key (JString "app") (JString "host1") (snd e)) (on_connection r)) = 1.
Proof.
  intros chunks r.
  assert (K : has_key r (JString "app") (JString "host1")).
  { exists (mkInput (JString "app") (JString "host1") "app:host1"); split; [vm_compute; auto|auto]. }
  split; [exact K|].
  exact (proj1 (connection_replays_each_input_once demo_derive quiet chunks
                  (JString "app") (JString "host1")) K).
Defined.

Lemma activate_controls_room_delivery_witness :
  "other" <> "app:host1" /\
  delivered (socket_rooms (on_browser_event (Deactivate "app:host1")
                            (mkSocket "sock1" ["sock1"; "app:host1"; "other"])))
    (EEmitRoom "other" (JString "+msg") (PPing "other" JUndefined JUndefined)) = true.
Proof.
  assert (Ne : "other" <> "app:host1") by discriminate.
  split; [exact Ne|].
  rewrite (proj2 (proj2 (proj2 (proj2 (activate_controls_room_delivery
             (mkSocket "sock1" ["sock1"; "app:host1"; "other"]) "app:host1" "other"
             (JString "+msg") (PPing "other" JUndefined JUndefined)))) Ne)).
  reflexivity.
Defined.

Lemma chunk_without_terminator_ignored_witness :
  no_nul "+msg|a|b|partial" = true /\
  exec (broadcastMessage demo_derive quiet "+msg|a|b|partial") empty_world = empty_world.
Proof.
  split; [reflexivity|].
  exact (chunk_without_terminator_ignored demo_derive quiet empty_world "+msg|a|b|partial" eq_refl).
Defined.

Lemma leading_whitespace_frame_unknown_witness :
  is_js_ws (Ascii.ascii_of_nat 10) = true /\
  exec (on_msg demo_derive quiet (String (Ascii.ascii_of_nat 10) "+input|app|host1")) empty_world
  = mkWorld [] [ELogError ("Unknown message type: " ++ String (Ascii.ascii_of_nat 10) "+input")].
Proof.
  split; [reflexivity|].
  exact (leading_whitespace_frame_unknown demo_derive quiet empty_world
           (Ascii.ascii_of_nat 10) "+input|app|host1" eq_refl).
Defined.

Lemma inherited_tag_silent_witness :
  In (head_part (split_char bar "valueOf|a|b|c")) object_prototype_keys /\
  exec (on_msg demo_derive quiet "valueOf|a|b|c") empty_world = mkWorld [] [ERejected].
Proof.
  assert (H : In (head_part (split_char bar "valueOf|a|b|c")) object_prototype_keys)
    by (simpl; tauto).
  split; [exact H|].
  exact (inherited_tag_silent demo_derive quiet "valueOf|a|b|c" empty_world H).
Defined.

Lemma known_input_reannounced_witness :
  let w := exec (on_msg demo_derive quiet "+input|app|host1") empty_world in
  head_part (split_char bar "+input|app|host1") = "+input" /\
  has_key (registry w) (JString "app") (JString "host1") /\
  registry (exec (on_msg demo_derive quiet "+input|app|host1") w) = registry w.
Proof.
  intro w.
  assert (K : has_key (registry w) (JString "app") (JString "host1")).
  { exists (mkInput (JString "app") (JString "host1") "app:host1"); split; [vm_compute; auto|auto]. }
  split; [reflexivity|]. split; [exact K|].
  destruct (known_input_reannounced demo_derive quiet "+input|app|host1" w eq_refl K)
    as (i & _ & _ & _ & E).
  rewrite E; reflexivity.
Defined.

Lemma registry_membership_after_message_witness :
  head_part (split_char bar "-input|app|host1") = "-input" /\
  ~ has_key (registry (exec (on_msg demo_derive quiet "-input|app|host1")
                         (exec (on_msg demo_derive quiet "+input|app|host1") empty_world)))
      (JString "app") (JString "host1").
Proof.
  split; [reflexivity|].
  exact (proj2 (registry_membership_after_message demo_derive quiet "-input|app|host1"
                  (exec (on_msg demo_derive quiet "+input|app|host1") empty_world)) eq_refl).
Defined.
